(** * BaseAdapter: lifecycle guards and chain configuration

    Shallow embedding of [packages/base/src/adapter/IAdapter.ts]: the
    abstract class [BaseAdapter] with its accessor [chainConfigProxy], the
    setter [setChainConfig] and the two guards
    [checkConnectionRequirements] and [checkInitializationRequirements].

    JavaScript objects live in a heap of property maps addressed by
    references, so that the copy made by an object spread is a new
    reference and aliasing can be stated.  Methods are computations in a
    state-and-exception monad over that heap and the adapter instance. *)

From stdpp Require Import gmap strings fin_maps.

Open Scope string_scope.

(** ** JavaScript values and objects *)

Module JS.

(** References to heap-allocated objects. *)
Abbreviation loc := positive.

Inductive value : Type :=
| VUndefined
| VNull
| VBool (b : bool)
| VNum (n : Z)
| VStr (s : string)
| VRef (l : loc).

(** An object is the finite map of its own enumerable properties. *)
Abbreviation obj := (gmap string value).

(** [ToBoolean]: what [!v] and [v ? a : b] test. *)
Definition truthy (v : value) : bool :=
  match v with
  | VUndefined | VNull => false
  | VBool b => b
  | VNum n => negb (n =? 0)%Z
  | VStr s => negb (String.eqb s "")
  | VRef _ => true
  end.

(** Property read [o.k]: a missing property reads as [undefined]. *)
Definition get (o : obj) (k : string) : value :=
  default VUndefined (o !! k).

(** [{ ...a, ...b }] where [a] may be [null] or [undefined] (spreading
    those contributes no property): the properties of [b] win. *)
Definition spread (a : option obj) (b : obj) : obj :=
  b ∪ default ∅ a.

(** [{ ...o }] *)
Definition clone (o : obj) : obj := spread None o.

End JS.

Import JS.

(** ** Constants of the module *)

Inductive ADAPTER_CATEGORY_TYPE : Type := EXTERNAL | IN_APP.

Definition ADAPTER_CATEGORY (c : ADAPTER_CATEGORY_TYPE) : string :=
  match c with
  | EXTERNAL => "external"
  | IN_APP => "in_app"
  end.

Inductive ADAPTER_STATUS_TYPE : Type :=
| NOT_READY
| READY
| CONNECTING
| CONNECTED
| DISCONNECTED
| ERRORED.

Definition ADAPTER_STATUS (s : ADAPTER_STATUS_TYPE) : string :=
  match s with
  | NOT_READY => "not_ready"
  | READY => "ready"
  | CONNECTING => "connecting"
  | CONNECTED => "connected"
  | DISCONNECTED => "disconnected"
  | ERRORED => "errored"
  end.

(** [a === b] on two status values: comparison of the underlying strings. *)
Definition status_seq (a b : ADAPTER_STATUS_TYPE) : bool :=
  String.eqb (ADAPTER_STATUS a) (ADAPTER_STATUS b).

Infix "===" := status_seq (at level 70, no associativity).
Notation "a !== b" := (negb (status_seq a b)) (at level 70, no associativity).

(** ** Errors *)

(** Modelled from the spec: the error classes of [../errors] are not part
    of the sources.  The factories [WalletInitializationError.notReady]
    and [WalletLoginError.connectionError] produce a typed error that
    carries a kind (initialization or login) and the message they are
    given. *)
Inductive ErrorKind : Type := initialization | login.

Record WalletError : Type := mkError {
  kind : ErrorKind;
  message : string
}.

Module WalletInitializationError.
Definition notReady (extraMessage : string) : WalletError :=
  mkError initialization extraMessage.
End WalletInitializationError.

Module WalletLoginError.
Definition connectionError (extraMessage : string) : WalletError :=
  mkError login extraMessage.
End WalletLoginError.

(** ** The adapter instance and the world it runs in *)

Record BaseAdapter : Type := mkAdapter {
  adapterData : value;
  chainConfig : option loc;       (* CustomChainConfig | undefined *)
  adapterNamespace : string;
  currentChainNamespace : string;
  type : ADAPTER_CATEGORY_TYPE;
  name : string;
  status : ADAPTER_STATUS_TYPE;
  provider : option loc           (* SafeEventEmitterProvider | null *)
}.

Record World : Type := mkWorld {
  heap : gmap loc obj;
  this : BaseAdapter
}.

(** [this.chainConfig = v] *)
Definition assign_chainConfig (v : option loc) (a : BaseAdapter) : BaseAdapter :=
  {| adapterData := adapterData a;
     chainConfig := v;
     adapterNamespace := adapterNamespace a;
     currentChainNamespace := currentChainNamespace a;
     type := type a;
     name := name a;
     status := status a;
     provider := provider a |}.

(** The object a reference denotes; the stored configuration as a value. *)
Definition deref (h : gmap loc obj) (l : loc) : obj := default ∅ (h !! l).

Definition storedConfig (w : World) : option obj :=
  l ← chainConfig (this w); heap w !! l.

(** ** Computations: state and exceptions *)

Inductive Completion (A : Type) : Type :=
| Normal (a : A)
| Throw (e : WalletError).

Arguments Normal {A} a.
Arguments Throw {A} e.

Definition M (A : Type) : Type := World → Completion A * World.

Definition ret {A} (a : A) : M A := fun w => (Normal a, w).

Definition throw {A} (e : WalletError) : M A := fun w => (Throw e, w).

Definition bind {A B} (m : M A) (k : A → M B) : M B := fun w =>
  match m w with
  | (Normal a, w') => k a w'
  | (Throw e, w') => (Throw e, w')
  end.

Notation "x <~ m ;; k" := (bind m (fun x => k))
  (at level 100, m at next level, right associativity).
Notation "m ;;; k" := (bind m (fun _ => k))
  (at level 100, right associativity).

(** [if (b) throw e;] *)
Definition throw_if (b : bool) (e : WalletError) : M unit :=
  if b then throw e else ret tt.

(** Reading a field of [this]. *)
Definition read {A} (f : BaseAdapter → A) : M A := fun w => (Normal (f (this w)), w).

(** Reading the object behind a reference. *)
Definition load (l : loc) : M obj := fun w => (Normal (deref (heap w) l), w).

(** An object literal: a new object at a reference not yet in use. *)
Definition alloc (o : obj) : M loc := fun w =>
  let l := fresh (dom (heap w)) in
  (Normal l, {| heap := <[l := o]> (heap w); this := this w |}).

Definition write_chainConfig (v : option loc) : M unit := fun w =>
  (Normal tt, {| heap := heap w; this := assign_chainConfig v (this w) |}).

(** An outside mutation of the object at [l] (property writes and deletes
    by a caller that holds the reference): its properties become [o]. *)
Definition mutate (l : loc) (o : obj) (w : World) : World :=
  {| heap := <[l := o]> (heap w); this := this w |}.

(** ** The methods of [BaseAdapter] *)

Section Methods.

(** The chain-configuration registry imported from [..]: the default
    configuration for a namespace and an optional chain id, or nothing. *)
Variable getChainConfig : value → value → option obj.

(** The default the registry gives for the namespace and chain id of an
    argument [c] of [setChainConfig]. *)
Definition registryDefault (c : obj) : option obj :=
  getChainConfig (get c "chainNamespace") (get c "chainId").

(** [get chainConfigProxy()] *)
Definition chainConfigProxy : M (option loc) :=
  c <~ read chainConfig ;;
  match c with
  | Some l =>
      o <~ load l ;;
      l' <~ alloc (clone o) ;;
      ret (Some l')
  | None => ret None
  end.

(** [setChainConfig(customChainConfig)] *)
Definition setChainConfig (customChainConfig : obj) : M unit :=
  s <~ read status ;;
  if s === READY then ret tt else
  throw_if (negb (truthy (get customChainConfig "chainNamespace")))
    (WalletInitializationError.notReady
       "ChainNamespace is required while setting chainConfig") ;;;
  let defaultChainConfig :=
    getChainConfig (get customChainConfig "chainNamespace")
                   (get customChainConfig "chainId") in
  l <~ alloc (spread defaultChainConfig customChainConfig) ;;
  write_chainConfig (Some l).

(** [checkConnectionRequirements()] *)
Definition checkConnectionRequirements : M unit :=
  s <~ read status ;;
  throw_if (s === CONNECTING)
    (WalletLoginError.connectionError "Already pending connection") ;;;
  throw_if (s === CONNECTED)
    (WalletLoginError.connectionError "Already connected") ;;;
  throw_if (s !== READY)
    (WalletLoginError.connectionError "Wallet adapter is not ready yet").

(** [checkInitializationRequirements()] *)
Definition checkInitializationRequirements : M unit :=
  s <~ read status ;;
  if s === NOT_READY then ret tt else
  throw_if (s === CONNECTING)
    (WalletInitializationError.notReady "Already pending connection") ;;;
  throw_if (s === CONNECTED)
    (WalletInitializationError.notReady "Already connected") ;;;
  throw_if (s === READY)
    (WalletInitializationError.notReady "Adapter is already initialized").

End Methods.


(** ** Concrete instances

    A small registry and a few adapters on which the statements below are
    evaluated. *)

Definition eip155_default : obj :=
  <["chainNamespace" := VStr "eip155"]>
  (<["chainId" := VStr "0x1"]>
  (<["rpcTarget" := VStr "https://rpc.registry.example"]>
  (<["ticker" := VStr "ETH"]> ∅))).

Definition sampleRegistry (chainNamespace chainId : value) : option obj :=
  match chainNamespace with
  | VStr s => if String.eqb s "eip155" then Some eip155_default else None
  | _ => None
  end.

Definition sampleAdapter (s : ADAPTER_STATUS_TYPE) (c : option loc) : BaseAdapter :=
  {| adapterData := VRef 1%positive;
     chainConfig := c;
     adapterNamespace := "eip155";
     currentChainNamespace := "eip155";
     type := EXTERNAL;
     name := "sample";
     status := s;
     provider := None |}.

(** An adapter with no configuration yet; [adapterData] is the empty
    object the class initialises it to. *)
Definition freshWorld (s : ADAPTER_STATUS_TYPE) : World :=
  {| heap := <[1%positive := ∅]> ∅; this := sampleAdapter s None |}.

(** An adapter holding [eip155_default] as its configuration. *)
Definition configuredWorld (s : ADAPTER_STATUS_TYPE) : World :=
  {| heap := <[2%positive := eip155_default]> (<[1%positive := ∅]> ∅);
     this := sampleAdapter s (Some 2%positive) |}.

Definition customRpc : obj :=
  <["chainNamespace" := VStr "eip155"]>
  (<["chainId" := VStr "0x1"]>
  (<["rpcTarget" := VStr "https://rpc.custom.example"]> ∅)).

Definition sameChain : obj :=
  <["chainNamespace" := VStr "eip155"]> (<["chainId" := VStr "0x1"]> ∅).

Definition noNamespace : obj :=
  <["rpcTarget" := VStr "https://rpc.custom.example"]> ∅.

(** Every reference held in [chainConfig] denotes an object of the heap. *)
Definition wf (w : World) : Prop :=
  ∀ l, chainConfig (this w) = Some l → is_Some (heap w !! l).

(** ** Sequences of calls

    What a user of the class can do with the methods it implements: call
    them one after the other, in any order, going on after a call that
    threw.  [call] is the world one call leaves, [calls] the world a
    sequence of calls leaves. *)

Inductive Call : Type :=
| CallChainConfigProxy
| CallSetChainConfig (customChainConfig : obj)
| CallCheckConnectionRequirements
| CallCheckInitializationRequirements.

Definition call (getChainConfig : value → value → option obj)
    (c : Call) (w : World) : World :=
  match c with
  | CallChainConfigProxy => snd (chainConfigProxy w)
  | CallSetChainConfig o => snd (setChainConfig getChainConfig o w)
  | CallCheckConnectionRequirements => snd (checkConnectionRequirements w)
  | CallCheckInitializationRequirements => snd (checkInitializationRequirements w)
  end.

Fixpoint calls (getChainConfig : value → value → option obj)
    (cs : list Call) (w : World) : World :=
  match cs with
  | [] => w
  | c :: cs' => calls getChainConfig cs' (call getChainConfig c w)
  end.


Definition otherNamespace : obj :=
  <["chainNamespace" := VStr "other"]>
  (<["rpcTarget" := VStr "https://rpc.custom.example"]> ∅).

(** * Properties *)

(** ** Status comparison *)

Lemma ADAPTER_STATUS_inj a b : ADAPTER_STATUS a = ADAPTER_STATUS b → a = b.
Proof. destruct a, b; simpl; intros H; first [reflexivity | discriminate H]. Qed.

Lemma status_seq_true a b : (a === b) = true ↔ a = b.
Proof.
  unfold status_seq. rewrite String.eqb_eq. split.
  - apply ADAPTER_STATUS_inj.
  - intros ->. reflexivity.
Qed.

Lemma status_seq_false a b : (a === b) = false ↔ a ≠ b.
Proof.
  rewrite <- status_seq_true. destruct (a === b); split; congruence.
Qed.

(** ** The guards *)

(** The guards only read [status]: they run on any world as on a world
    that has nothing but that status. *)
Lemma guards_read_status_only w :
  checkConnectionRequirements w
    = (fst (checkConnectionRequirements (freshWorld (status (this w)))), w)
  ∧ checkInitializationRequirements w
    = (fst (checkInitializationRequirements (freshWorld (status (this w)))), w).
Proof.
  destruct w as [h a]. simpl. destruct (status a) eqn:E;
    unfold checkConnectionRequirements, checkInitializationRequirements,
      bind, read; simpl; rewrite E; split; reflexivity.
Qed.

(** C1: [checkConnectionRequirements] returns normally exactly when the
    status is READY; for CONNECTING it throws a login error "Already
    pending connection", for CONNECTED "Already connected", and for
    NOT_READY, DISCONNECTED and ERRORED "Wallet adapter is not ready yet".
    The adapter and the heap are left as they were. *)
Theorem checkConnectionRequirements_table (w : World) :
  checkConnectionRequirements w =
    (match status (this w) with
     | READY => Normal tt
     | CONNECTING =>
         Throw {| kind := login; message := "Already pending connection" |}
     | CONNECTED =>
         Throw {| kind := login; message := "Already connected" |}
     | NOT_READY | DISCONNECTED | ERRORED =>
         Throw {| kind := login; message := "Wallet adapter is not ready yet" |}
     end, w)
  ∧ (fst (checkConnectionRequirements w) = Normal tt ↔ status (this w) = READY).
Proof.
  destruct (guards_read_status_only w) as [-> _]. simpl.
  destruct (status (this w)); (split; [reflexivity |]);
    vm_compute; split; congruence.
Qed.

(** C2, as the code has it: [checkInitializationRequirements] throws an
    initialization error for CONNECTING ("Already pending connection"),
    CONNECTED ("Already connected") and READY ("Adapter is already
    initialized"); it returns normally for NOT_READY and also for
    DISCONNECTED and ERRORED, which no branch rejects.  The adapter and the
    heap are left as they were. *)
Theorem checkInitializationRequirements_table (w : World) :
  checkInitializationRequirements w =
    (match status (this w) with
     | NOT_READY | DISCONNECTED | ERRORED => Normal tt
     | CONNECTING =>
         Throw {| kind := initialization; message := "Already pending connection" |}
     | CONNECTED =>
         Throw {| kind := initialization; message := "Already connected" |}
     | READY =>
         Throw {| kind := initialization; message := "Adapter is already initialized" |}
     end, w)
  ∧ (fst (checkInitializationRequirements w) = Normal tt
     ↔ status (this w) = NOT_READY ∨ status (this w) = DISCONNECTED
       ∨ status (this w) = ERRORED).
Proof.
  destruct (guards_read_status_only w) as [_ ->]. simpl.
  destruct (status (this w)); (split; [reflexivity |]);
    vm_compute; split; try tauto; intros H;
    first [discriminate H | destruct H as [H | [H | H]]; discriminate H].
Qed.

(** C2, counterexample: in status DISCONNECTED, which is not NOT_READY, the
    guard returns normally instead of throwing; the same in ERRORED. *)
Lemma checkInitializationRequirements_passes_when_disconnected :
  status (this (freshWorld DISCONNECTED)) ≠ NOT_READY
  ∧ checkInitializationRequirements (freshWorld DISCONNECTED)
    = (Normal tt, freshWorld DISCONNECTED)
  ∧ status (this (freshWorld ERRORED)) ≠ NOT_READY
  ∧ checkInitializationRequirements (freshWorld ERRORED)
    = (Normal tt, freshWorld ERRORED).
Proof. repeat split; first [discriminate | reflexivity]. Qed.

(** C9: each guard is a total function of the status alone.  Two worlds
    with the same status get the same outcome from each guard, whatever
    their other fields and heaps; each guard yields an outcome in every
    world and leaves the world as it was. *)
Theorem guards_depend_on_status_only (w1 w2 : World) :
  status (this w1) = status (this w2) →
  fst (checkConnectionRequirements w1) = fst (checkConnectionRequirements w2)
  ∧ fst (checkInitializationRequirements w1)
    = fst (checkInitializationRequirements w2)
  ∧ (∃ r, checkConnectionRequirements w1 = (r, w1))
  ∧ (∃ r, checkInitializationRequirements w1 = (r, w1)).
Proof.
  intros E.
  destruct (guards_read_status_only w1) as [C1 I1].
  destruct (guards_read_status_only w2) as [C2 I2].
  rewrite C1, C2, I1, I2, E. simpl. repeat split; eauto.
Qed.

(** C9, witness: two worlds in status CONNECTING, one without and one
    with a stored configuration. *)
Lemma guards_depend_on_status_only_witness :
  status (this (freshWorld CONNECTING)) = status (this (configuredWorld CONNECTING))
  ∧ fst (checkConnectionRequirements (freshWorld CONNECTING))
    = fst (checkConnectionRequirements (configuredWorld CONNECTING)).
Proof.
  split; [reflexivity |].
  apply (guards_depend_on_status_only (freshWorld CONNECTING)
           (configuredWorld CONNECTING)).
  reflexivity.
Defined.

(** ** Objects and allocation *)

Lemma clone_id (o : obj) : clone o = o.
Proof. unfold clone, spread. simpl. apply (right_id ∅ (∪)). Qed.

Lemma spread_lookup (a : option obj) (b : obj) (k : string) :
  spread a b !! k =
    match b !! k with
    | Some v => Some v
    | None => default ∅ a !! k
    end.
Proof.
  unfold spread. destruct (b !! k) as [v |] eqn:E.
  - apply lookup_union_Some_l. exact E.
  - rewrite lookup_union_r; [reflexivity | exact E].
Qed.

(** The merge, property by property: those of [b] as [b] has them, the
    others as [a] has them. *)
Lemma spread_merge (a : option obj) (b : obj) :
  (∀ k v, b !! k = Some v → spread a b !! k = Some v)
  ∧ (∀ k, b !! k = None → spread a b !! k = default ∅ a !! k).
Proof.
  split; intros k.
  - intros v Hk. rewrite spread_lookup, Hk. reflexivity.
  - intros Hk. rewrite spread_lookup, Hk. reflexivity.
Qed.

Lemma fresh_not_allocated (h : gmap loc obj) : h !! fresh (dom h) = None.
Proof. apply not_elem_of_dom. apply is_fresh. Qed.

Lemma fresh_ne_allocated (h : gmap loc obj) (l : loc) :
  is_Some (h !! l) → l ≠ fresh (dom h).
Proof.
  intros [o Hl] ->. rewrite fresh_not_allocated in Hl. discriminate Hl.
Qed.

Lemma truthy_get_absent (c : obj) (k : string) :
  c !! k = None → truthy (get c k) = false.
Proof. unfold get. intros ->. reflexivity. Qed.

(** ** [chainConfigProxy] *)

Lemma chainConfigProxy_run (w : World) (l : loc) (o : obj) :
  chainConfig (this w) = Some l → heap w !! l = Some o →
  chainConfigProxy w =
    (Normal (Some (fresh (dom (heap w)))),
     {| heap := <[fresh (dom (heap w)) := o]> (heap w); this := this w |}).
Proof.
  intros Hc Hl.
  unfold chainConfigProxy, bind, read, load, alloc, ret, deref. simpl.
  rewrite Hc. simpl. rewrite Hl. simpl. rewrite clone_id. reflexivity.
Qed.

(** C8: with a configuration [o] stored at [l], two consecutive reads of
    [chainConfigProxy] return two references [l1] and [l2], different from
    each other and from [l], whose objects both equal [o]; the adapter and
    its stored configuration are as before.  Whatever is then written into
    either returned object, the stored configuration is still [o] and the
    next read returns yet another reference to an object equal to [o]. *)
Theorem chainConfigProxy_defensive_copy (w : World) (l : loc) (o : obj) :
  chainConfig (this w) = Some l → heap w !! l = Some o →
  ∃ l1 l2 : loc,
    let w1 := snd (chainConfigProxy w) in
    let w2 := snd (chainConfigProxy w1) in
    fst (chainConfigProxy w) = Normal (Some l1)
    ∧ fst (chainConfigProxy w1) = Normal (Some l2)
    ∧ l1 ≠ l2 ∧ l1 ≠ l ∧ l2 ≠ l
    ∧ heap w2 !! l1 = Some o ∧ heap w2 !! l2 = Some o
    ∧ storedConfig w2 = Some o ∧ this w2 = this w
    ∧ ∀ (lm : loc) (o' : obj), lm = l1 ∨ lm = l2 →
        let wm := mutate lm o' w2 in
        storedConfig wm = Some o ∧ this wm = this w
        ∧ ∃ l3 : loc,
            fst (chainConfigProxy wm) = Normal (Some l3)
            ∧ l3 ≠ lm ∧ l3 ≠ l
            ∧ heap (snd (chainConfigProxy wm)) !! l3 = Some o.
Proof.
  intros Hc Hl.
  set (h := heap w) in *.
  set (l1 := fresh (dom h)).
  set (h1 := <[l1 := o]> h).
  set (l2 := fresh (dom h1)).
  set (h2 := <[l2 := o]> h1).
  assert (N1 : l ≠ l1) by (apply fresh_ne_allocated; rewrite Hl; eauto).
  assert (Hl1 : h1 !! l = Some o)
    by (unfold h1; rewrite lookup_insert_ne; [exact Hl | congruence]).
  assert (H11 : h1 !! l1 = Some o) by apply lookup_insert_eq.
  assert (N2 : l ≠ l2) by (apply fresh_ne_allocated; rewrite Hl1; eauto).
  assert (N12 : l1 ≠ l2) by (apply fresh_ne_allocated; rewrite H11; eauto).
  assert (Hl2 : h2 !! l = Some o)
    by (unfold h2; rewrite lookup_insert_ne; [exact Hl1 | congruence]).
  assert (R1 : chainConfigProxy w = (Normal (Some l1), mkWorld h1 (this w)))
    by (apply (chainConfigProxy_run w l o); assumption).
  assert (R2 : chainConfigProxy (mkWorld h1 (this w))
               = (Normal (Some l2), mkWorld h2 (this w)))
    by (apply (chainConfigProxy_run (mkWorld h1 (this w)) l o); assumption).
  exists l1, l2. simpl. rewrite R1. simpl. rewrite R2. simpl.
  repeat split; try congruence.
  - unfold h2. rewrite lookup_insert_ne; [exact H11 | congruence].
  - apply lookup_insert_eq.
  - unfold storedConfig. simpl. rewrite Hc. exact Hl2.
  - unfold storedConfig. simpl. rewrite Hc. simpl.
    rewrite lookup_insert_ne; [exact Hl2 | destruct H; congruence].
  - set (hm := <[lm := o']> h2).
    assert (Hm : hm !! l = Some o)
      by (unfold hm; rewrite lookup_insert_ne;
          [exact Hl2 | destruct H; congruence]).
    assert (Rm : chainConfigProxy (mutate lm o' (mkWorld h2 (this w)))
                 = (Normal (Some (fresh (dom hm))),
                    mkWorld (<[fresh (dom hm) := o]> hm) (this w)))
      by (apply (chainConfigProxy_run (mutate lm o' (mkWorld h2 (this w))) l o);
          assumption).
    exists (fresh (dom hm)). rewrite Rm. simpl.
    repeat split.
    + intros E. symmetry in E. revert E. apply fresh_ne_allocated.
      unfold hm. rewrite lookup_insert_eq. eauto.
    + intros E. symmetry in E. revert E. apply fresh_ne_allocated.
      rewrite Hm. eauto.
    + apply lookup_insert_eq.
Qed.

(** C8, witness: the adapter that holds [eip155_default] at reference 2. *)
Lemma chainConfigProxy_defensive_copy_witness :
  chainConfig (this (configuredWorld READY)) = Some 2%positive
  ∧ heap (configuredWorld READY) !! 2%positive = Some eip155_default
  ∧ ∃ l1 l2 : loc,
      fst (chainConfigProxy (configuredWorld READY)) = Normal (Some l1)
      ∧ fst (chainConfigProxy (snd (chainConfigProxy (configuredWorld READY))))
        = Normal (Some l2)
      ∧ l1 ≠ l2.
Proof.
  assert (Hc : chainConfig (this (configuredWorld READY)) = Some 2%positive)
    by reflexivity.
  assert (Hl : heap (configuredWorld READY) !! 2%positive = Some eip155_default)
    by (vm_compute; reflexivity).
  split; [exact Hc |]. split; [exact Hl |].
  destruct (chainConfigProxy_defensive_copy (configuredWorld READY)
              2%positive eip155_default Hc Hl)
    as (l1 & l2 & H1 & H2 & N & _).
  exists l1, l2. auto.
Defined.

(** ** [setChainConfig] *)

Section SetChainConfig.

Variable getChainConfig : value → value → option obj.

(** The three ways through the method. *)
Lemma setChainConfig_run (c : obj) (w : World) :
  setChainConfig getChainConfig c w =
    if status (this w) === READY then (Normal tt, w)
    else if truthy (get c "chainNamespace") then
      (Normal tt,
       {| heap := <[fresh (dom (heap w)) := spread (registryDefault getChainConfig c) c]> (heap w);
          this := assign_chainConfig (Some (fresh (dom (heap w)))) (this w) |})
    else
      (Throw {| kind := initialization;
                message := "ChainNamespace is required while setting chainConfig" |},
       w).
Proof.
  unfold setChainConfig, bind, read. simpl.
  destruct (status (this w) === READY); [reflexivity |].
  destruct (truthy (get c "chainNamespace")); reflexivity.
Qed.

Lemma setChainConfig_stores (c : obj) (w : World) :
  status (this w) ≠ READY → truthy (get c "chainNamespace") = true →
  fst (setChainConfig getChainConfig c w) = Normal tt
  ∧ storedConfig (snd (setChainConfig getChainConfig c w))
    = Some (spread (registryDefault getChainConfig c) c)
  ∧ status (this (snd (setChainConfig getChainConfig c w))) = status (this w).
Proof.
  intros Hs Ht. rewrite setChainConfig_run.
  apply status_seq_false in Hs. rewrite Hs, Ht. simpl.
  repeat split. unfold storedConfig. simpl. apply lookup_insert_eq.
Qed.

(** C3, as the code has it: in status READY a call to [setChainConfig]
    returns normally; no error is raised, the call is ignored. *)
Theorem setChainConfig_ready_returns_normally (c : obj) (w : World) :
  status (this w) = READY →
  fst (setChainConfig getChainConfig c w) = Normal tt.
Proof.
  intros Hs. rewrite setChainConfig_run.
  apply status_seq_true in Hs. rewrite Hs. reflexivity.
Qed.

(** C4: in status READY [setChainConfig] changes nothing, whatever the
    argument: the stored configuration, every field of the adapter and the
    heap are after the call what they were before it. *)
Theorem setChainConfig_ready_no_mutation (c : obj) (w : World) :
  status (this w) = READY →
  storedConfig (snd (setChainConfig getChainConfig c w)) = storedConfig w
  ∧ this (snd (setChainConfig getChainConfig c w)) = this w
  ∧ snd (setChainConfig getChainConfig c w) = w.
Proof.
  intros Hs. rewrite setChainConfig_run.
  apply status_seq_true in Hs. rewrite Hs. simpl. auto.
Qed.

(** C6: when the status is not READY and the argument [c] carries a chain
    namespace, one call returns normally and stores an object [o] that is
    the merge of the registry default for the namespace and chain id of [c]
    with [c]: every property of [c] is in [o] with the value [c] gives it,
    and every property [c] lacks is in [o] what it is in the default. *)
Theorem setChainConfig_merges_over_default (c : obj) (w : World) :
  status (this w) ≠ READY → truthy (get c "chainNamespace") = true →
  fst (setChainConfig getChainConfig c w) = Normal tt
  ∧ ∃ o : obj,
      storedConfig (snd (setChainConfig getChainConfig c w)) = Some o
      ∧ (∀ k v, c !! k = Some v → o !! k = Some v)
      ∧ (∀ k, c !! k = None →
           o !! k = default ∅ (getChainConfig (get c "chainNamespace")
                                              (get c "chainId")) !! k).
Proof.
  intros Hs Ht.
  destruct (setChainConfig_stores c w Hs Ht) as (Hr & Ho & _).
  split; [exact Hr |].
  exists (spread (registryDefault getChainConfig c) c). split; [exact Ho |].
  split; intros k.
  - intros v Hk. rewrite spread_lookup, Hk. reflexivity.
  - intros Hk. rewrite spread_lookup, Hk. reflexivity.
Qed.

(** C5, as the code has it: of two calls in sequence while the status is
    not READY, the second returns normally and stores an object [o] in
    which every property of [c2] has the value [c2] gives it and every
    property [c2] lacks is what it is in the registry default for the
    namespace and chain id of [c2].  Nothing of the first call is kept:
    the stored configuration is the one a single call with [c2] stores. *)
Theorem setChainConfig_twice_second_over_default (c1 c2 : obj) (w : World) :
  status (this w) ≠ READY →
  truthy (get c1 "chainNamespace") = true →
  truthy (get c2 "chainNamespace") = true →
  let w1 := snd (setChainConfig getChainConfig c1 w) in
  let r2 := setChainConfig getChainConfig c2 w1 in
  fst r2 = Normal tt
  ∧ (∃ o : obj,
      storedConfig (snd r2) = Some o
      ∧ (∀ k v, c2 !! k = Some v → o !! k = Some v)
      ∧ (∀ k, c2 !! k = None →
           o !! k = default ∅ (getChainConfig (get c2 "chainNamespace")
                                              (get c2 "chainId")) !! k))
  ∧ storedConfig (snd r2)
    = storedConfig (snd (setChainConfig getChainConfig c2 w)).
Proof.
  intros Hs H1 H2 w1 r2.
  destruct (setChainConfig_stores c1 w Hs H1) as (_ & _ & Hs1).
  fold w1 in Hs1.
  assert (Hs' : status (this w1) ≠ READY) by (rewrite Hs1; exact Hs).
  destruct (setChainConfig_stores c2 w1 Hs' H2) as (Hr & Ho & _).
  destruct (setChainConfig_stores c2 w Hs H2) as (_ & Ho' & _).
  fold r2 in Hr, Ho.
  split; [exact Hr |]. split.
  - exists (spread (registryDefault getChainConfig c2) c2). split; [exact Ho |].
    split; intros k.
    + intros v Hk. rewrite spread_lookup, Hk. reflexivity.
    + intros Hk. rewrite spread_lookup, Hk. reflexivity.
  - rewrite Ho, Ho'. reflexivity.
Qed.

(** C7: when the status is not READY and the argument has no
    [chainNamespace] property, the call throws an initialization error
    with the message "ChainNamespace is required while setting
    chainConfig", and the adapter, its stored configuration and the heap
    are what they were. *)
Theorem setChainConfig_requires_namespace (c : obj) (w : World) :
  status (this w) ≠ READY → c !! "chainNamespace" = None →
  setChainConfig getChainConfig c w =
    (Throw {| kind := initialization;
              message := "ChainNamespace is required while setting chainConfig" |},
     w)
  ∧ storedConfig (snd (setChainConfig getChainConfig c w)) = storedConfig w.
Proof.
  intros Hs Hk. rewrite setChainConfig_run.
  apply status_seq_false in Hs. rewrite Hs.
  rewrite (truthy_get_absent c _ Hk). simpl. auto.
Qed.

(** C10: with an argument [c] that carries a chain namespace, in each of
    NOT_READY, CONNECTING, CONNECTED, DISCONNECTED and ERRORED the call
    returns normally and the stored configuration becomes an object [o]
    that is the merge of the registry default with [c]: every property of
    [c] is in [o] with the value [c] gives it, and every property [c]
    lacks is in [o] what it is in the registry default for the namespace
    and chain id of [c].  Objects already in the heap are untouched and
    the status is unchanged.  READY alone blocks the call: there the world
    is left as it was, and on an adapter whose configuration reference is
    allocated the reference changes exactly when the status is not
    READY. *)
Theorem setChainConfig_blocked_only_when_ready (c : obj) (w : World) :
  truthy (get c "chainNamespace") = true →
  let r := setChainConfig getChainConfig c w in
  (status (this w) ∈ [NOT_READY; CONNECTING; CONNECTED; DISCONNECTED; ERRORED] →
     fst r = Normal tt
     ∧ (∃ o : obj,
          storedConfig (snd r) = Some o
          ∧ (∀ k v, c !! k = Some v → o !! k = Some v)
          ∧ (∀ k, c !! k = None →
               o !! k = default ∅ (getChainConfig (get c "chainNamespace")
                                                  (get c "chainId")) !! k))
     ∧ status (this (snd r)) = status (this w)
     ∧ ∀ l, is_Some (heap w !! l) → heap (snd r) !! l = heap w !! l)
  ∧ (status (this w) = READY → snd r = w)
  ∧ (wf w →
     (status (this w) ≠ READY ↔ chainConfig (this (snd r)) ≠ chainConfig (this w))).
Proof.
  intros Ht r. split; [| split].
  - intros Hin.
    assert (Hs : status (this w) ≠ READY).
    { intros E. rewrite E, !elem_of_cons, elem_of_nil in Hin.
      intuition discriminate. }
    destruct (setChainConfig_stores c w Hs Ht) as (Hr & Ho & Hst).
    fold r in Hr, Ho, Hst. split; [exact Hr |]. split.
    { exists (spread (registryDefault getChainConfig c) c).
      split; [exact Ho |]. apply spread_merge. }
    split; [exact Hst |].
    intros l Hl. unfold r. rewrite setChainConfig_run.
    apply status_seq_false in Hs. rewrite Hs, Ht. simpl.
    apply lookup_insert_ne. intros E. symmetry in E. revert E.
    apply fresh_ne_allocated. exact Hl.
  - intros Hs. unfold r. rewrite setChainConfig_run.
    apply status_seq_true in Hs. rewrite Hs. reflexivity.
  - intros Hwf. unfold r. rewrite setChainConfig_run.
    destruct (status (this w) === READY) eqn:E.
    + apply status_seq_true in E. simpl. split; intros H; congruence.
    + apply status_seq_false in E. rewrite Ht. simpl.
      split; [intros _ | intros _; exact E].
      intros Heq. symmetry in Heq. apply Hwf in Heq.
      rewrite fresh_not_allocated in Heq. destruct Heq as [? Heq].
      discriminate Heq.
Qed.

End SetChainConfig.

(** ** The statements on concrete adapters *)

(** C3, counterexample: a READY adapter given a full custom configuration
    returns normally and raises nothing. *)
Lemma setChainConfig_ready_does_not_throw :
  status (this (configuredWorld READY)) = READY
  ∧ fst (setChainConfig sampleRegistry customRpc (configuredWorld READY))
    = Normal tt
  ∧ ¬ ∃ e, fst (setChainConfig sampleRegistry customRpc (configuredWorld READY))
           = Throw e.
Proof.
  split; [reflexivity |]. split; [reflexivity |].
  intros [e H]. vm_compute in H. discriminate H.
Qed.

(** C3, witness. *)
Lemma setChainConfig_ready_returns_normally_witness :
  status (this (configuredWorld READY)) = READY
  ∧ fst (setChainConfig sampleRegistry noNamespace (configuredWorld READY))
    = Normal tt.
Proof.
  split; [reflexivity |].
  apply (setChainConfig_ready_returns_normally sampleRegistry noNamespace
           (configuredWorld READY)).
  reflexivity.
Defined.

(** C4, witness. *)
Lemma setChainConfig_ready_no_mutation_witness :
  status (this (configuredWorld READY)) = READY
  ∧ snd (setChainConfig sampleRegistry customRpc (configuredWorld READY))
    = configuredWorld READY.
Proof.
  split; [reflexivity |].
  apply (setChainConfig_ready_no_mutation sampleRegistry customRpc
           (configuredWorld READY)).
  reflexivity.
Defined.

(** C5, counterexample: the first call sets a custom [rpcTarget]; the
    second names the same chain and has no [rpcTarget].  After the second
    call [rpcTarget] is the registry's, not the one of the first merge. *)
Lemma setChainConfig_twice_resets_to_default :
  let w1 := snd (setChainConfig sampleRegistry customRpc (freshWorld NOT_READY)) in
  let w2 := snd (setChainConfig sampleRegistry sameChain w1) in
  status (this (freshWorld NOT_READY)) ≠ READY
  ∧ truthy (get customRpc "chainNamespace") = true
  ∧ truthy (get sameChain "chainNamespace") = true
  ∧ sameChain !! "rpcTarget" = None
  ∧ storedConfig w1 ≫= (.!! "rpcTarget") = Some (VStr "https://rpc.custom.example")
  ∧ storedConfig w2 ≫= (.!! "rpcTarget") = Some (VStr "https://rpc.registry.example")
  ∧ storedConfig w2 ≫= (.!! "rpcTarget") ≠ storedConfig w1 ≫= (.!! "rpcTarget").
Proof.
  repeat split; try (vm_compute; reflexivity); vm_compute; discriminate.
Qed.

(** C5, witness. *)
Lemma setChainConfig_twice_second_over_default_witness :
  status (this (freshWorld NOT_READY)) ≠ READY
  ∧ truthy (get customRpc "chainNamespace") = true
  ∧ truthy (get sameChain "chainNamespace") = true
  ∧ storedConfig
      (snd (setChainConfig sampleRegistry sameChain
              (snd (setChainConfig sampleRegistry customRpc (freshWorld NOT_READY)))))
    = storedConfig (snd (setChainConfig sampleRegistry sameChain (freshWorld NOT_READY))).
Proof.
  assert (Hs : status (this (freshWorld NOT_READY)) ≠ READY) by discriminate.
  assert (H1 : truthy (get customRpc "chainNamespace") = true)
    by (vm_compute; reflexivity).
  assert (H2 : truthy (get sameChain "chainNamespace") = true)
    by (vm_compute; reflexivity).
  split; [exact Hs |]. split; [exact H1 |]. split; [exact H2 |].
  apply (setChainConfig_twice_second_over_default sampleRegistry
           customRpc sameChain (freshWorld NOT_READY) Hs H1 H2).
Defined.

(** C6, witness. *)
Lemma setChainConfig_merges_over_default_witness :
  status (this (freshWorld NOT_READY)) ≠ READY
  ∧ truthy (get customRpc "chainNamespace") = true
  ∧ fst (setChainConfig sampleRegistry customRpc (freshWorld NOT_READY)) = Normal tt.
Proof.
  assert (Hs : status (this (freshWorld NOT_READY)) ≠ READY) by discriminate.
  assert (H1 : truthy (get customRpc "chainNamespace") = true)
    by (vm_compute; reflexivity).
  split; [exact Hs |]. split; [exact H1 |].
  apply (setChainConfig_merges_over_default sampleRegistry customRpc
           (freshWorld NOT_READY) Hs H1).
Defined.

(** C7, witness. *)
Lemma setChainConfig_requires_namespace_witness :
  status (this (configuredWorld NOT_READY)) ≠ READY
  ∧ noNamespace !! "chainNamespace" = None
  ∧ storedConfig (snd (setChainConfig sampleRegistry noNamespace
                         (configuredWorld NOT_READY)))
    = storedConfig (configuredWorld NOT_READY).
Proof.
  assert (Hs : status (this (configuredWorld NOT_READY)) ≠ READY) by discriminate.
  assert (Hk : noNamespace !! "chainNamespace" = None)
    by (vm_compute; reflexivity).
  split; [exact Hs |]. split; [exact Hk |].
  apply (setChainConfig_requires_namespace sampleRegistry noNamespace
           (configuredWorld NOT_READY) Hs Hk).
Defined.

(** C10, witness: a CONNECTED adapter is reconfigured; the new
    configuration has the caller's [rpcTarget] and the registry's
    [ticker]. *)
Lemma setChainConfig_blocked_only_when_ready_witness :
  truthy (get customRpc "chainNamespace") = true
  ∧ status (this (configuredWorld CONNECTED))
      ∈ [NOT_READY; CONNECTING; CONNECTED; DISCONNECTED; ERRORED]
  ∧ fst (setChainConfig sampleRegistry customRpc (configuredWorld CONNECTED))
    = Normal tt
  ∧ ∃ o : obj,
      storedConfig (snd (setChainConfig sampleRegistry customRpc
                           (configuredWorld CONNECTED))) = Some o
      ∧ o !! "rpcTarget" = Some (VStr "https://rpc.custom.example")
      ∧ o !! "ticker" = Some (VStr "ETH").
Proof.
  assert (H1 : truthy (get customRpc "chainNamespace") = true)
    by (vm_compute; reflexivity).
  assert (Hin : status (this (configuredWorld CONNECTED))
                  ∈ [NOT_READY; CONNECTING; CONNECTED; DISCONNECTED; ERRORED]).
  { simpl. rewrite !elem_of_cons. right; right; left. reflexivity. }
  split; [exact H1 |]. split; [exact Hin |].
  destruct (setChainConfig_blocked_only_when_ready sampleRegistry customRpc
              (configuredWorld CONNECTED) H1) as (Hgo & _).
  destruct (Hgo Hin) as (Hr & (o & Ho & Hc & Hd) & _).
  split; [exact Hr |]. exists o. split; [exact Ho |]. split.
  - apply Hc. vm_compute. reflexivity.
  - rewrite Hd; vm_compute; reflexivity.
Defined.

(** * Further properties of the methods *)

(** ** One call *)

Lemma assign_chainConfig_same (a : BaseAdapter) :
  assign_chainConfig (chainConfig a) a = a.
Proof. destruct a. reflexivity. Qed.

Lemma chainConfigProxy_cases (w : World) :
  chainConfigProxy w =
    match chainConfig (this w) with
    | Some l =>
        (Normal (Some (fresh (dom (heap w)))),
         {| heap := <[fresh (dom (heap w)) := deref (heap w) l]> (heap w);
            this := this w |})
    | None => (Normal None, w)
    end.
Proof.
  unfold chainConfigProxy, bind, read, load, alloc, ret. simpl.
  destruct (chainConfig (this w)) as [l |]; simpl; [| reflexivity].
  rewrite clone_id. reflexivity.
Qed.

Lemma heap_grows_at_fresh (h : gmap loc obj) (o : obj) :
  h ⊆ <[fresh (dom h) := o]> h.
Proof. apply insert_subseteq. apply fresh_not_allocated. Qed.

(** A world that only gained objects and kept its configuration reference
    keeps a well-formed and a stored configuration. *)
Lemma grown_keeps_config (w w' : World) :
  heap w ⊆ heap w' → chainConfig (this w') = chainConfig (this w) →
  (wf w → wf w') ∧ (is_Some (storedConfig w) → is_Some (storedConfig w')).
Proof.
  intros Hsub Hc. split.
  - intros Hwf l Hl. rewrite Hc in Hl. destruct (Hwf l Hl) as [o Ho].
    exists o. exact (lookup_weaken _ _ _ _ Ho Hsub).
  - unfold storedConfig. rewrite Hc.
    destruct (chainConfig (this w)) as [l |]; simpl; [| exact id].
    intros [o Ho]. exists o. exact (lookup_weaken _ _ _ _ Ho Hsub).
Qed.

Lemma call_frame (reg : value → value → option obj) (c : Call) (w : World) :
  heap w ⊆ heap (call reg c w)
  ∧ this (call reg c w)
    = assign_chainConfig (chainConfig (this (call reg c w))) (this w)
  ∧ (wf w → wf (call reg c w))
  ∧ (is_Some (storedConfig w) → is_Some (storedConfig (call reg c w))).
Proof.
  assert (Same : ∀ w' : World, w' = w →
    heap w ⊆ heap w'
    ∧ this w' = assign_chainConfig (chainConfig (this w')) (this w)
    ∧ (wf w → wf w')
    ∧ (is_Some (storedConfig w) → is_Some (storedConfig w'))).
  { intros w' ->. rewrite assign_chainConfig_same. auto. }
  destruct c as [| o | |]; simpl.
  - rewrite chainConfigProxy_cases.
    destruct (chainConfig (this w)) as [l |] eqn:E; simpl;
      [| apply Same; reflexivity].
    split; [apply heap_grows_at_fresh |].
    split; [rewrite assign_chainConfig_same; reflexivity |].
    apply grown_keeps_config; simpl; [apply heap_grows_at_fresh | reflexivity].
  - rewrite setChainConfig_run.
    destruct (status (this w) === READY); [apply Same; reflexivity |].
    destruct (truthy (get o "chainNamespace")); [| apply Same; reflexivity].
    simpl. split; [apply heap_grows_at_fresh |]. split; [reflexivity |].
    split.
    + intros _ l Hl. simpl in Hl. injection Hl as <-. simpl.
      rewrite lookup_insert_eq. eauto.
    + intros _. unfold storedConfig. simpl. rewrite lookup_insert_eq. eauto.
  - apply Same. destruct (guards_read_status_only w) as [-> _]. reflexivity.
  - apply Same. destruct (guards_read_status_only w) as [_ ->]. reflexivity.
Qed.

(** ** Any sequence of calls *)

Lemma calls_frame (reg : value → value → option obj) (cs : list Call) :
  ∀ w : World,
    heap w ⊆ heap (calls reg cs w)
    ∧ this (calls reg cs w)
      = assign_chainConfig (chainConfig (this (calls reg cs w))) (this w)
    ∧ (wf w → wf (calls reg cs w))
    ∧ (is_Some (storedConfig w) → is_Some (storedConfig (calls reg cs w))).
Proof.
  induction cs as [| c cs IH]; intros w; simpl.
  - rewrite assign_chainConfig_same. auto.
  - destruct (call_frame reg c w) as (S1 & T1 & W1 & C1).
    destruct (IH (call reg c w)) as (S2 & T2 & W2 & C2).
    split; [etransitivity; eassumption |].
    split; [rewrite T2, T1; reflexivity |]. auto.
Qed.

(** ** When [setChainConfig] throws *)


(** ** [chainConfigProxy] in every state *)

(** X2: [chainConfigProxy] never throws, whatever the status; it returns
    [undefined] exactly when no configuration is held.  It leaves every
    field of the adapter and every object of the heap as they were, and on
    an adapter whose configuration reference is allocated the stored
    configuration reads the same after it. *)
Theorem chainConfigProxy_never_throws (w : World) :
  (∃ r, fst (chainConfigProxy w) = Normal r
        ∧ (r = None ↔ chainConfig (this w) = None))
  ∧ this (snd (chainConfigProxy w)) = this w
  ∧ heap w ⊆ heap (snd (chainConfigProxy w))
  ∧ (wf w → storedConfig (snd (chainConfigProxy w)) = storedConfig w).
Proof.
  rewrite chainConfigProxy_cases.
  destruct (chainConfig (this w)) as [l |] eqn:E; simpl.
  - split; [eexists; split; [reflexivity | split; discriminate] |].
    split; [reflexivity |]. split; [apply heap_grows_at_fresh |].
    intros Hwf. unfold storedConfig. simpl. rewrite E. simpl.
    apply lookup_insert_ne. intros F. symmetry in F. revert F.
    apply fresh_ne_allocated. apply Hwf. exact E.
  - split; [exists None; split; [reflexivity | tauto] |].
    split; [reflexivity |]. split; [reflexivity |].
    intros _. reflexivity.
Qed.

(** ** Writing and reading back *)

Section RoundTrip.

Variable getChainConfig : value → value → option obj.

(** X3: after a call of [setChainConfig] that is let through, reading
    [chainConfigProxy] returns a reference, other than the one the adapter
    holds, to an object that is the merge just stored.  Every property the
    caller gave reads back with the caller's value, the chain namespace in
    particular. *)
Theorem setChainConfig_then_chainConfigProxy (c : obj) (w : World) :
  status (this w) ≠ READY → truthy (get c "chainNamespace") = true →
  let w1 := snd (setChainConfig getChainConfig c w) in
  ∃ (l : loc) (o : obj),
    fst (chainConfigProxy w1) = Normal (Some l)
    ∧ heap (snd (chainConfigProxy w1)) !! l = Some o
    ∧ chainConfig (this w1) ≠ Some l
    ∧ storedConfig w1 = Some o
    ∧ (∀ k v, c !! k = Some v → get o k = v)
    ∧ get o "chainNamespace" = get c "chainNamespace".
Proof.
  intros Hs Ht w1.
  destruct (setChainConfig_stores getChainConfig c w Hs Ht) as (_ & Ho & _).
  fold w1 in Ho.
  destruct (chainConfig (this w1)) as [l0 |] eqn:E;
    [| unfold storedConfig in Ho; rewrite E in Ho; discriminate Ho].
  assert (Hl0 : heap w1 !! l0 = Some (spread (registryDefault getChainConfig c) c))
    by (unfold storedConfig in Ho; rewrite E in Ho; exact Ho).
  assert (Hk : ∀ k v, c !! k = Some v →
                 get (spread (registryDefault getChainConfig c) c) k = v).
  { intros k v Hkv. unfold get. rewrite spread_lookup, Hkv. reflexivity. }
  exists (fresh (dom (heap w1))), (spread (registryDefault getChainConfig c) c).
  rewrite (chainConfigProxy_run w1 l0 _ E Hl0). simpl.
  split; [reflexivity |]. split; [apply lookup_insert_eq |].
  split.
  { intros F. injection F as F. revert F. apply fresh_ne_allocated.
    rewrite Hl0. eauto. }
  split; [exact Ho |]. split; [exact Hk |].
  unfold get at 2. destruct (c !! "chainNamespace") as [v |] eqn:Hn.
  - apply Hk. exact Hn.
  - rewrite (truthy_get_absent c _ Hn) in Ht. discriminate Ht.
Qed.

(** X4: a copy obtained from [chainConfigProxy] is a snapshot.  Whatever
    methods of the class are called afterwards, in any number and order,
    a later [setChainConfig] among them, the object behind the reference
    that was returned still has the properties the configuration had when
    it was read. *)
Theorem chainConfigProxy_copy_is_snapshot
    (w : World) (l : loc) (o : obj) (cs : list Call) :
  chainConfig (this w) = Some l → heap w !! l = Some o →
  ∃ l1 : loc,
    fst (chainConfigProxy w) = Normal (Some l1)
    ∧ l1 ≠ l
    ∧ heap (calls getChainConfig cs (snd (chainConfigProxy w))) !! l1 = Some o.
Proof.
  intros Hc Hl. exists (fresh (dom (heap w))).
  rewrite (chainConfigProxy_run w l o Hc Hl). simpl.
  split; [reflexivity |]. split.
  - intros F. symmetry in F. revert F. apply fresh_ne_allocated.
    rewrite Hl. eauto.
  - destruct (calls_frame getChainConfig cs
                (mkWorld (<[fresh (dom (heap w)) := o]> (heap w)) (this w)))
      as (Hsub & _).
    refine (lookup_weaken _ _ _ _ _ Hsub). simpl. apply lookup_insert_eq.
Qed.

(** X10: when the registry has no default for the namespace and chain id
    of the argument, the stored configuration has the properties of the
    argument and no other. *)
Theorem setChainConfig_without_default (c : obj) (w : World) :
  status (this w) ≠ READY → truthy (get c "chainNamespace") = true →
  getChainConfig (get c "chainNamespace") (get c "chainId") = None →
  fst (setChainConfig getChainConfig c w) = Normal tt
  ∧ storedConfig (snd (setChainConfig getChainConfig c w)) = Some c.
Proof.
  intros Hs Ht Hd.
  destruct (setChainConfig_stores getChainConfig c w Hs Ht) as (Hr & Ho & _).
  split; [exact Hr |]. rewrite Ho. unfold registryDefault. rewrite Hd.
  f_equal. apply clone_id.
Qed.

(** X11: the object a successful [setChainConfig] installs is new.  No
    reference to an object that existed before the call is the
    configuration reference afterwards, so writing through such a
    reference, an old configuration or a copy handed out earlier, does not
    change the stored configuration. *)
Theorem setChainConfig_installs_new_object
    (c : obj) (w : World) (l : loc) (o' : obj) :
  status (this w) ≠ READY → truthy (get c "chainNamespace") = true →
  is_Some (heap w !! l) →
  let w1 := snd (setChainConfig getChainConfig c w) in
  chainConfig (this w1) ≠ Some l
  ∧ storedConfig (mutate l o' w1) = storedConfig w1
  ∧ heap w1 !! l = heap w !! l.
Proof.
  intros Hs Ht Hl w1. unfold w1. rewrite setChainConfig_run.
  apply status_seq_false in Hs. rewrite Hs, Ht. simpl.
  assert (N : fresh (dom (heap w)) ≠ l).
  { intros F. symmetry in F. revert F. apply fresh_ne_allocated. exact Hl. }
  split; [congruence |]. split.
  - unfold storedConfig, mutate. simpl.
    rewrite lookup_insert_ne; [reflexivity | congruence].
  - apply lookup_insert_ne. exact N.
Qed.

(** ** The guards together *)

(** X9: wherever [checkInitializationRequirements] passes, a
    [setChainConfig] whose argument [c] carries a chain namespace is let
    through and stores the merge of the registry default with [c], every
    property of [c] with the value [c] gives it and every other property
    as the registry default has it, so a configuration can be set before
    [init]; wherever [checkConnectionRequirements] passes, the same call
    is ignored and the world is left as it was. *)
Theorem setChainConfig_follows_guards (c : obj) (w : World) :
  truthy (get c "chainNamespace") = true →
  (fst (checkInitializationRequirements w) = Normal tt →
     fst (setChainConfig getChainConfig c w) = Normal tt
     ∧ ∃ o : obj,
         storedConfig (snd (setChainConfig getChainConfig c w)) = Some o
         ∧ (∀ k v, c !! k = Some v → o !! k = Some v)
         ∧ (∀ k, c !! k = None →
              o !! k = default ∅ (getChainConfig (get c "chainNamespace")
                                                 (get c "chainId")) !! k))
  ∧ (fst (checkConnectionRequirements w) = Normal tt →
     snd (setChainConfig getChainConfig c w) = w).
Proof.
  intros Ht.
  destruct (guards_read_status_only w) as [-> ->]. simpl. split.
  - intros Hg.
    assert (Hs : status (this w) ≠ READY).
    { intros E. rewrite E in Hg. vm_compute in Hg. discriminate Hg. }
    destruct (setChainConfig_stores getChainConfig c w Hs Ht) as (Hr & Ho & _).
    split; [exact Hr |].
    exists (spread (registryDefault getChainConfig c) c).
    split; [exact Ho |]. apply spread_merge.
  - intros Hg.
    assert (Hs : status (this w) = READY).
    { destruct (status (this w)); vm_compute in Hg;
        first [reflexivity | discriminate Hg]. }
    rewrite setChainConfig_run. apply status_seq_true in Hs. rewrite Hs.
    reflexivity.
Qed.

(** X6: no sequence of calls to the methods of the class changes what
    either guard answers: [setChainConfig] and [chainConfigProxy] cannot
    make a guard pass that threw, nor throw that passed. *)
Theorem guards_stable_under_calls (cs : list Call) (w : World) :
  fst (checkConnectionRequirements (calls getChainConfig cs w))
    = fst (checkConnectionRequirements w)
  ∧ fst (checkInitializationRequirements (calls getChainConfig cs w))
    = fst (checkInitializationRequirements w).
Proof.
  destruct (calls_frame getChainConfig cs w) as (_ & T & _).
  destruct (guards_read_status_only (calls getChainConfig cs w)) as [-> ->].
  destruct (guards_read_status_only w) as [-> ->].
  rewrite T. simpl. auto.
Qed.

(** X7: the only field of the adapter the methods of the class ever write
    is [chainConfig].  After any sequence of calls the status, the name,
    the type, the provider, the adapter data and both namespaces are what
    they were. *)
Theorem calls_write_only_chainConfig (cs : list Call) (w : World) :
  let a := this w in
  let a' := this (calls getChainConfig cs w) in
  a' = assign_chainConfig (chainConfig a') a
  ∧ status a' = status a ∧ name a' = name a ∧ type a' = type a
  ∧ provider a' = provider a ∧ adapterData a' = adapterData a
  ∧ adapterNamespace a' = adapterNamespace a
  ∧ currentChainNamespace a' = currentChainNamespace a.
Proof.
  intros a a'.
  destruct (calls_frame getChainConfig cs w) as (_ & T & _).
  fold a a' in T. split; [exact T |]. rewrite T. simpl. repeat split.
Qed.

(** X8: no sequence of calls to the methods of the class modifies or
    removes an object of the heap; the configuration reference, if
    allocated before, is allocated after; and an adapter that holds a
    configuration still holds one: nothing resets it to [undefined]. *)
Theorem calls_keep_objects_and_config (cs : list Call) (w : World) :
  (∀ l o, heap w !! l = Some o → heap (calls getChainConfig cs w) !! l = Some o)
  ∧ (wf w → wf (calls getChainConfig cs w))
  ∧ (is_Some (storedConfig w) → is_Some (storedConfig (calls getChainConfig cs w))).
Proof.
  destruct (calls_frame getChainConfig cs w) as (Hsub & _ & Hwf & Hc).
  split; [| split; assumption].
  intros l o Hl. exact (lookup_weaken _ _ _ _ Hl Hsub).
Qed.

End RoundTrip.

(** X5: in no status do both guards pass.  Both throw exactly in
    CONNECTING and CONNECTED, and then with the same message.  Whatever
    [checkConnectionRequirements] throws is a login error and whatever
    [checkInitializationRequirements] throws is an initialization error. *)
Theorem guards_never_both_pass (w : World) :
  ¬ (fst (checkConnectionRequirements w) = Normal tt
     ∧ fst (checkInitializationRequirements w) = Normal tt)
  ∧ ((∃ e1 e2, fst (checkConnectionRequirements w) = Throw e1
               ∧ fst (checkInitializationRequirements w) = Throw e2)
     ↔ status (this w) = CONNECTING ∨ status (this w) = CONNECTED)
  ∧ (∀ e1 e2, fst (checkConnectionRequirements w) = Throw e1 →
       fst (checkInitializationRequirements w) = Throw e2 →
       message e1 = message e2)
  ∧ (∀ e, fst (checkConnectionRequirements w) = Throw e → kind e = login)
  ∧ (∀ e, fst (checkInitializationRequirements w) = Throw e →
       kind e = initialization).
Proof.
  destruct (guards_read_status_only w) as [-> ->]. simpl.
  destruct (status (this w)); vm_compute;
    (split; [intros [A B]; congruence |]);
    (split; [split;
       [intros (e1 & e2 & A & B); first [discriminate A | discriminate B | auto]
       | intros [A | A]; first [discriminate A | eauto]] |]);
    (split; [intros e1 e2 A B;
       first [discriminate A | discriminate B
             | injection A as <-; injection B as <-; reflexivity] |]);
    split; intros e A; first [discriminate A | injection A as <-; reflexivity].
Qed.

(** ** The further properties on concrete adapters *)

(** X3, witness. *)
Lemma setChainConfig_then_chainConfigProxy_witness :
  status (this (freshWorld NOT_READY)) ≠ READY
  ∧ truthy (get customRpc "chainNamespace") = true
  ∧ ∃ (l : loc) (o : obj),
      fst (chainConfigProxy
             (snd (setChainConfig sampleRegistry customRpc (freshWorld NOT_READY))))
        = Normal (Some l)
      ∧ storedConfig
          (snd (setChainConfig sampleRegistry customRpc (freshWorld NOT_READY)))
        = Some o
      ∧ get o "chainNamespace" = get customRpc "chainNamespace".
Proof.
  assert (Hs : status (this (freshWorld NOT_READY)) ≠ READY) by discriminate.
  assert (Ht : truthy (get customRpc "chainNamespace") = true)
    by (vm_compute; reflexivity).
  split; [exact Hs |]. split; [exact Ht |].
  destruct (setChainConfig_then_chainConfigProxy sampleRegistry customRpc
              (freshWorld NOT_READY) Hs Ht)
    as (l & o & H1 & _ & _ & H4 & _ & H6).
  exists l, o. auto.
Defined.

(** X4, witness: a copy is read, then the adapter is reconfigured, read
    again and given an argument it rejects. *)
Lemma chainConfigProxy_copy_is_snapshot_witness :
  chainConfig (this (configuredWorld NOT_READY)) = Some 2%positive
  ∧ heap (configuredWorld NOT_READY) !! 2%positive = Some eip155_default
  ∧ ∃ l1 : loc,
      fst (chainConfigProxy (configuredWorld NOT_READY)) = Normal (Some l1)
      ∧ l1 ≠ 2%positive
      ∧ heap (calls sampleRegistry
                [CallSetChainConfig customRpc; CallChainConfigProxy;
                 CallSetChainConfig noNamespace]
                (snd (chainConfigProxy (configuredWorld NOT_READY)))) !! l1
        = Some eip155_default.
Proof.
  assert (Hc : chainConfig (this (configuredWorld NOT_READY)) = Some 2%positive)
    by reflexivity.
  assert (Hl : heap (configuredWorld NOT_READY) !! 2%positive = Some eip155_default)
    by (vm_compute; reflexivity).
  split; [exact Hc |]. split; [exact Hl |].
  apply (chainConfigProxy_copy_is_snapshot sampleRegistry
           (configuredWorld NOT_READY) 2%positive eip155_default
           [CallSetChainConfig customRpc; CallChainConfigProxy;
            CallSetChainConfig noNamespace] Hc Hl).
Defined.


(** X9, witness: a NOT_READY adapter passes the initialization guard and
    takes the configuration, with the caller's [rpcTarget] and the
    registry's [ticker]; a READY adapter passes the connection guard and
    ignores the call. *)
Lemma setChainConfig_follows_guards_witness :
  truthy (get customRpc "chainNamespace") = true
  ∧ fst (checkInitializationRequirements (freshWorld NOT_READY)) = Normal tt
  ∧ fst (setChainConfig sampleRegistry customRpc (freshWorld NOT_READY)) = Normal tt
  ∧ (∃ o : obj,
       storedConfig (snd (setChainConfig sampleRegistry customRpc
                            (freshWorld NOT_READY))) = Some o
       ∧ o !! "rpcTarget" = Some (VStr "https://rpc.custom.example")
       ∧ o !! "ticker" = Some (VStr "ETH"))
  ∧ fst (checkConnectionRequirements (configuredWorld READY)) = Normal tt
  ∧ snd (setChainConfig sampleRegistry customRpc (configuredWorld READY))
    = configuredWorld READY.
Proof.
  assert (Ht : truthy (get customRpc "chainNamespace") = true)
    by (vm_compute; reflexivity).
  assert (Hi : fst (checkInitializationRequirements (freshWorld NOT_READY))
               = Normal tt) by reflexivity.
  assert (Hg : fst (checkConnectionRequirements (configuredWorld READY)) = Normal tt)
    by reflexivity.
  split; [exact Ht |]. split; [exact Hi |].
  destruct (setChainConfig_follows_guards sampleRegistry customRpc
              (freshWorld NOT_READY) Ht) as [Hinit _].
  destruct (Hinit Hi) as (Hr & o & Ho & Hc & Hd).
  split; [exact Hr |]. split.
  { exists o. split; [exact Ho |]. split.
    - apply Hc. vm_compute. reflexivity.
    - rewrite Hd; vm_compute; reflexivity. }
  split; [exact Hg |].
  destruct (setChainConfig_follows_guards sampleRegistry customRpc
              (configuredWorld READY) Ht) as [_ H].
  exact (H Hg).
Defined.

(** X10, witness: the sample registry knows nothing of the namespace
    "other". *)
Lemma setChainConfig_without_default_witness :
  status (this (freshWorld ERRORED)) ≠ READY
  ∧ truthy (get otherNamespace "chainNamespace") = true
  ∧ sampleRegistry (get otherNamespace "chainNamespace")
                   (get otherNamespace "chainId") = None
  ∧ storedConfig (snd (setChainConfig sampleRegistry otherNamespace
                         (freshWorld ERRORED)))
    = Some otherNamespace.
Proof.
  assert (Hs : status (this (freshWorld ERRORED)) ≠ READY) by discriminate.
  assert (Ht : truthy (get otherNamespace "chainNamespace") = true)
    by (vm_compute; reflexivity).
  assert (Hd : sampleRegistry (get otherNamespace "chainNamespace")
                              (get otherNamespace "chainId") = None)
    by (vm_compute; reflexivity).
  split; [exact Hs |]. split; [exact Ht |]. split; [exact Hd |].
  apply (setChainConfig_without_default sampleRegistry otherNamespace
           (freshWorld ERRORED) Hs Ht Hd).
Defined.

(** X11, witness: the old configuration object of a DISCONNECTED adapter is
    emptied after the adapter was reconfigured. *)
Lemma setChainConfig_installs_new_object_witness :
  status (this (configuredWorld DISCONNECTED)) ≠ READY
  ∧ truthy (get customRpc "chainNamespace") = true
  ∧ is_Some (heap (configuredWorld DISCONNECTED) !! 2%positive)
  ∧ storedConfig
      (mutate 2%positive ∅
         (snd (setChainConfig sampleRegistry customRpc (configuredWorld DISCONNECTED))))
    = storedConfig
        (snd (setChainConfig sampleRegistry customRpc (configuredWorld DISCONNECTED))).
Proof.
  assert (Hs : status (this (configuredWorld DISCONNECTED)) ≠ READY) by discriminate.
  assert (Ht : truthy (get customRpc "chainNamespace") = true)
    by (vm_compute; reflexivity).
  assert (Hl : is_Some (heap (configuredWorld DISCONNECTED) !! 2%positive))
    by (vm_compute; eauto).
  split; [exact Hs |]. split; [exact Ht |]. split; [exact Hl |].
  apply (setChainConfig_installs_new_object sampleRegistry customRpc
           (configuredWorld DISCONNECTED) 2%positive ∅ Hs Ht Hl).
Defined.
